(** * yr-data-store: [remove] and [fetch]

    A shallow embedding of [src/lib/methods/remove.js] and
    [src/lib/methods/fetch.js], and the properties of the two methods.

    JavaScript values are an inductive type, objects are association lists in
    insertion order, a synchronous [throw] is the [Throw] result, and the
    calls into [load] and [reload] are recorded as events.  The promise that
    [fetch] returns is followed in two steps: what [fetch] does before it
    returns, and what the callbacks registered on the load do once the load
    settles. *)

From Stdlib Require Import ZArith List String Ascii Bool Lia.
Import ListNotations.
Open Scope string_scope.
Open Scope Z_scope.

Set Warnings "-register-all".

(** ** JavaScript values *)

(** Numbers.  The numbers this program handles are millisecond timestamps,
    durations and HTTP status codes, all integral; [NaN] and the infinities
    are kept apart because [undefined] compares as [NaN] and an expiry may be
    [Infinity]. *)
Inductive num : Type :=
| NaN
| Fin (z : Z)
| PosInf
| NegInf.

(** Values: the JSON-like data held by the store, [undefined], and [Error]
    instances (the one kind of object here that is not a plain object). *)
Inductive value : Type :=
| VUndefined
| VNull
| VBool (b : bool)
| VNum (n : num)
| VStr (s : string)
| VArr (items : list value)
| VObj (fields : list (string * value))
| VError (name : string) (props : list (string * value)).

(** A computation that returns or throws. *)
Inductive result (A : Type) : Type :=
| Ok (a : A)
| Throw (e : value).
Arguments Ok {A} a.
Arguments Throw {A} e.

Definition bind {A B : Type} (r : result A) (k : A -> result B) : result B :=
  match r with
  | Ok a => k a
  | Throw e => Throw e
  end.

Notation "x <- r ;; k" := (bind r (fun x => k))
  (at level 61, r at next level, right associativity).

Definition TypeError : value := VError "TypeError" [].

(** [!!v] *)
Definition truthy (v : value) : bool :=
  match v with
  | VUndefined | VNull => false
  | VBool b => b
  | VNum NaN => false
  | VNum (Fin z) => negb (z =? 0)
  | VNum _ => true
  | VStr s => negb (s =? "")%string
  | VArr _ | VObj _ | VError _ _ => true
  end.

(** Own property of an object literal; the first binding of a name wins. *)
Fixpoint lookup (k : string) (fs : list (string * value)) : option value :=
  match fs with
  | [] => None
  | (k', v) :: fs' => if (k' =? k)%string then Some v else lookup k fs'
  end.

Definition is_digit (c : ascii) : bool :=
  let n := nat_of_ascii c in (48 <=? n)%nat && (n <=? 57)%nat.

Fixpoint digits (s : string) (acc : nat) : option nat :=
  match s with
  | EmptyString => Some acc
  | String c s' =>
      if is_digit c then digits s' (10 * acc + (nat_of_ascii c - 48))%nat
      else None
  end.

(** A canonical array index: decimal digits without a leading zero. *)
Definition array_index (k : string) : option nat :=
  match k with
  | EmptyString => None
  | String "0" EmptyString => Some 0%nat
  | String "0" _ => None
  | _ => digits k 0%nat
  end.

(** The engine of the JavaScript runtime, as far as the two methods lean on
    it: which names an object reaches through its prototype chain, and
    [ToNumber] on operands that are not [undefined], [null], a boolean or a
    number. *)
Class Engine : Type := {
  inherited : value -> string -> bool;
  to_number_rest : value -> num
}.

Section Operators.
Context {engine : Engine}.

(** Own string-named property. *)
Definition has_own (k : string) (v : value) : bool :=
  match v with
  | VObj fs | VError _ fs =>
      match lookup k fs with Some _ => true | None => false end
  | VArr xs =>
      (k =? "length")%string ||
      match array_index k with
      | Some i => (i <? List.length xs)%nat
      | None => false
      end
  | _ => false
  end.

(** [k in v]: a [TypeError] when [v] is not an object. *)
Definition js_in (k : string) (v : value) : result bool :=
  match v with
  | VObj _ | VArr _ | VError _ _ => Ok (has_own k v || inherited v k)
  | _ => Throw TypeError
  end.

(** [v[k]] on the data model: a [TypeError] on [undefined] and [null];
    members that only the prototype chain provides are functions, which the
    data model does not hold, and read as [undefined] here (in a
    comparison with a number both give [NaN]).  The methods read [status],
    and the store's expiry key behind an [in] test. *)
Definition js_prop (v : value) (k : string) : result value :=
  match v with
  | VUndefined | VNull => Throw TypeError
  | VObj fs =>
      Ok match lookup k fs with Some x => x | None => VUndefined end
  | VError name ps =>
      Ok (if (k =? "name")%string then VStr name
          else match lookup k ps with Some x => x | None => VUndefined end)
  | VArr xs =>
      Ok (if (k =? "length")%string
          then VNum (Fin (Z.of_nat (List.length xs)))
          else match array_index k with
               | Some i => nth i xs VUndefined
               | None => VUndefined
               end)
  | VStr s =>
      Ok (if (k =? "length")%string
          then VNum (Fin (Z.of_nat (String.length s)))
          else match array_index k with
               | Some i =>
                   match String.get i s with
                   | Some c => VStr (String c EmptyString)
                   | None => VUndefined
                   end
               | None => VUndefined
               end)
  | VBool _ | VNum _ => Ok VUndefined
  end.

(** [ToNumber] *)
Definition to_number (v : value) : num :=
  match v with
  | VUndefined => NaN
  | VNull => Fin 0
  | VBool b => Fin (if b then 1 else 0)
  | VNum n => n
  | _ => to_number_rest v
  end.

(** [a > b] on numbers: false as soon as one side is [NaN]. *)
Definition num_gt (a b : num) : bool :=
  match a, b with
  | NaN, _ | _, NaN => false
  | Fin x, Fin y => y <? x
  | PosInf, PosInf => false
  | PosInf, _ => true
  | _, PosInf => false
  | NegInf, _ => false
  | Fin _, NegInf => true
  end.

(** [a >= b] on numbers. *)
Definition num_ge (a b : num) : bool :=
  match a, b with
  | NaN, _ | _, NaN => false
  | Fin x, Fin y => y <=? x
  | PosInf, _ => true
  | _, NegInf => true
  | _, PosInf => false
  | NegInf, _ => false
  end.

(** [is-plain-obj]: object literals only. *)
Definition isPlainObject (v : value) : bool :=
  match v with
  | VObj _ => true
  | _ => false
  end.

End Operators.

(** ** The store and the modules the two methods require *)

(** [store._data] and [store.EXPIRES_KEY] are read by the methods;
    [isWritable] is the writability flag of the specification.  The store's
    [debug] logger has no effect on data and is left out. *)
Record Store : Type := {
  _data : value;
  isWritable : bool;
  EXPIRES_KEY : string
}.

(** What [require] brings into the two files and is not part of the sources
    at hand: [./get], [./set] and the path helpers of [@yr/keys].  A key that
    is missing ([null], [undefined]) is [None].  [get] and [set] may throw
    (a cyclic reference, a store that is not writable); [get] leaves the
    data tree as it is. *)
Class Modules : Type := {
  get : Store -> option string -> result value;
  set : Store -> option string -> value -> result Store;
  keys_length : string -> nat;
  keys_last : string -> option string;
  keys_slice : string -> Z -> Z -> string
}.

(** The name under which a value is used as a property key. *)
Definition property_key (k : option string) : string :=
  match k with
  | Some s => s
  | None => "undefined"
  end.

(** [options] of [fetch], with the fields of its doc comment and
    [rejectOnError]; an option that is not given is [false] or [None]. *)
Record Options : Type := {
  abort : bool;
  ignoreQuery : bool;
  minExpiry : option Z;
  reload : bool;
  retry : option Z;
  staleWhileRevalidate : bool;
  staleIfError : bool;
  timeout : option Z;
  rejectOnError : bool
}.

(** [options = {}] *)
Definition no_options : Options :=
  {| abort := false; ignoreQuery := false; minExpiry := None;
     reload := false; retry := None; staleWhileRevalidate := false;
     staleIfError := false; timeout := None; rejectOnError := false |}.

(** Modelled from the spec: [load.js] and [reload.js] are not part of the
    sources at hand.  [load(store, key, url, options)] issues the load via
    the external transport and returns a promise; [reload(...)] schedules a
    background reload and returns.  A call of either is recorded as an
    event, and the way the load's promise settles (fulfilled, rejected, or
    neither when the load is aborted) is an input of [settle] below. *)
Inductive event : Type :=
| Load (key url : option string) (options : Options)
| Reload (key url : option string) (options : Options).

(** What the load's promise is fulfilled with. *)
Record LoadResponse : Type := {
  duration : value;
  headers : value
}.

Inductive outcome : Type :=
| Succeeds (res : LoadResponse)
| Fails (err : value)
| NeverSettles.

Inductive promise : Type :=
| Pending
| Fulfilled (response : value)
| Rejected (reason : value).

(** What [fetch] hands back. *)
Inductive returned : Type :=
| ResolvedNow (response : value)
| PromiseToLoad.

(** A call of [fetch] up to its [return]: the calls made on the way, the
    promise returned, and, when a load was issued, the [value] its callbacks
    closed over. *)
Record Call : Type := {
  effects : list event;
  returns : returned;
  loading : option value
}.

(** The whole life of a call. *)
Record Run : Type := {
  before_return : list event;
  at_return : promise;
  after_settle : list event;
  final : promise
}.

Definition is_Load (e : event) : bool :=
  match e with Load _ _ _ => true | Reload _ _ _ => false end.

Definition is_Reload (e : event) : bool :=
  match e with Reload _ _ _ => true | Load _ _ _ => false end.

Definition loads (es : list event) : nat := List.length (filter is_Load es).

Definition reloads (es : list event) : nat :=
  List.length (filter is_Reload es).

(** ** remove.js *)

Section Remove.
Context {engine : Engine} {modules : Modules}.

(** Line 15: the terminal key. *)
Definition terminal (key : string) : option string :=
  if (keys_length key =? 1)%nat then Some key else keys_last key.

(** Line 16: the parent of [key]. *)
Definition parent (store : Store) (key : string) : result value :=
  if (keys_length key =? 1)%nat then Ok (_data store)
  else get store (Some (keys_slice key 0 (-1))).

(** [remove(store, key)]; the result is the store afterwards. *)
Definition remove (store : Store) (key : string) : result Store :=
  let k := terminal key in
  data <- parent store key ;;
  present <- (if truthy data then js_in (property_key k) data
              else Ok false) ;;
  if present then set store k VUndefined else Ok store.

End Remove.

(** ** fetch.js *)

Section Fetch.
Context {engine : Engine} {modules : Modules}.

(** [hasExpired(obj, expiresKey)] at the time [now]; the result as the
    condition of line 28 sees it. *)
Definition hasExpired (now : Z) (obj : value) (expiresKey : string)
  : result bool :=
  if negb (truthy obj) then Ok false
  else if negb (isPlainObject obj) then Ok false
  else
    present <- js_in expiresKey obj ;;
    if negb present then Ok false
    else
      expires <- js_prop obj expiresKey ;;
      Ok (num_gt (Fin now) (to_number expires)).

(** Lines 64-68. *)
Definition stored_response (val : value) : value :=
  VObj [("duration", VNum (Fin 0));
        ("headers", VObj [("status", VNum (Fin 200))]);
        ("data", val)].

(** [fetch(store, key, url, options)] up to its [return], at the time
    [now]. *)
Definition fetch (now : Z) (store : Store) (key url : option string)
    (options : Options) : result Call :=
  let shouldReload := reload options in
  value <- get store key ;;
  isMissingOrExpired <-
    (if negb (truthy value) then Ok true
     else hasExpired now value (EXPIRES_KEY store)) ;;
  let schedule := if shouldReload then [Reload key url options] else [] in
  if isMissingOrExpired then
    if negb (truthy value && staleWhileRevalidate options) then
      Ok {| effects := [Load key url options];
            returns := PromiseToLoad;
            loading := Some value |}
    else
      Ok {| effects := Load key url options :: schedule;
            returns := ResolvedNow (stored_response value);
            loading := Some value |}
  else
    Ok {| effects := schedule;
          returns := ResolvedNow (stored_response value);
          loading := None |}.

(** Lines 36-44: the callback on a fulfilled load, run on the store as it
    is then.  The calls it makes, and the response it resolves with or the
    exception it throws. *)
Definition on_loaded (store : Store) (key url : option string)
    (options : Options) (res : LoadResponse) : list event * result value :=
  (if reload options then [Reload key url options] else [],
   data <- get store key ;;
   Ok (VObj [("duration", duration res);
             ("headers", headers res);
             ("data", data)])).

(** Lines 45-54: the callback on a rejected load, or on an exception of the
    callback above. *)
Definition on_failed (key url : option string) (options : Options)
    (val err : value) : list event * result value :=
  match js_prop err "status" with
  | Throw e => ([], Throw e)
  | Ok status =>
      (if num_ge (to_number status) (Fin 500) && reload options
       then [Reload key url options] else [],
       Ok (VObj [("duration", VNum (Fin 0));
                 ("error", err);
                 ("headers", VObj [("status", status)]);
                 ("data", if staleIfError options then val else VNull)]))
  end.

(** [promiseToLoad] settles only through [resolve]; an exception of the
    last callback leaves it pending. *)
Definition resolved (r : result value) : promise :=
  match r with
  | Ok response => Fulfilled response
  | Throw _ => Pending
  end.

(** The callbacks of lines 34-55, once the load has settled as [o] and the
    store is [store]: the calls made and the state of [promiseToLoad]. *)
Definition settle (store : Store) (key url : option string)
    (options : Options) (val : value) (o : outcome)
  : list event * promise :=
  match o with
  | NeverSettles => ([], Pending)
  | Fails err =>
      let (es, r) := on_failed key url options val err in
      (es, resolved r)
  | Succeeds res =>
      match on_loaded store key url options res with
      | (es, Ok response) => (es, Fulfilled response)
      | (es, Throw e) =>
          let (es', r) := on_failed key url options val e in
          ((es ++ es')%list, resolved r)
      end
  end.

(** A call of [fetch] at the time [now] on [store], whose load, if one is
    issued, settles as [o] when the store is [store']. *)
Definition run (now : Z) (store store' : Store) (key url : option string)
    (options : Options) (o : outcome) : result Run :=
  call <- fetch now store key url options ;;
  let (es, p) :=
    match loading call with
    | Some val => settle store' key url options val o
    | None => ([], Pending)
    end in
  Ok {| before_return := effects call;
        at_return := match returns call with
                     | ResolvedNow response => Fulfilled response
                     | PromiseToLoad => Pending
                     end;
        after_settle := es;
        final := match returns call with
                 | ResolvedNow response => Fulfilled response
                 | PromiseToLoad => p
                 end |}.

End Fetch.

(** ** The required modules, modelled for the examples *)

(** The path helpers of [@yr/keys], an external package: a key is cut at
    each [/], after one leading [/] is dropped. *)
Module Keys.

Fixpoint split (s : string) : list string :=
  match s with
  | EmptyString => [EmptyString]
  | String c s' =>
      if (c =? "/")%char then EmptyString :: split s'
      else match split s' with
           | [] => [String c EmptyString]
           | seg :: segs => String c seg :: segs
           end
  end.

Definition segments (key : string) : list string :=
  match key with
  | EmptyString => []
  | String c s' => if (c =? "/")%char then split s' else split key
  end.

Fixpoint join (segs : list string) : string :=
  match segs with
  | [] => ""
  | [seg] => seg
  | seg :: segs' => seg ++ "/" ++ join segs'
  end.

(** An index of [Array.prototype.slice], counted from the end when
    negative and clamped to the array. *)
Definition clamp (len : nat) (i : Z) : nat :=
  if i <? 0 then Z.to_nat (Z.max (Z.of_nat len + i) 0)
  else Nat.min (Z.to_nat i) len.

Definition slice_list {A : Type} (xs : list A) (b e : Z) : list A :=
  let len := List.length xs in
  firstn (clamp len e - clamp len b) (skipn (clamp len b) xs).

Definition length (key : string) : nat := List.length (segments key).

Definition last (key : string) : option string :=
  match rev (segments key) with
  | [] => None
  | seg :: _ => Some seg
  end.

Definition slice (key : string) (b e : Z) : string :=
  join (slice_list (segments key) b e).

End Keys.

(** Modelled from the spec: [get.js] and [set.js] are not part of the
    sources at hand.  Sections 3, 4.1 and 4.2 of the specification: a path
    is resolved to its canonical form, splicing in the target of each
    reference met on the way, with a bound on the number of references
    followed; [get] reads the node and expands the references among its
    children to the requested depth; [set] does nothing on a missing path,
    throws when the store is not writable, and otherwise writes at the
    canonical path, creating the mappings on the way.  The read cache of a
    store that is not writable returns what a fresh read returns and is
    left out. *)
Module SpecStore.

Definition REF_MARKER : string := "__ref:".

Definition MAX_REFERENCES : nat := 64.

Definition CyclicReferenceError : value :=
  VError "Error" [("message", VStr "cyclic reference")].

Definition NotWritableError : value :=
  VError "Error" [("message", VStr "store is not writable")].

(** The target of a reference. *)
Definition reference_target (v : value) : option string :=
  match v with
  | VStr s =>
      if prefix REF_MARKER s
      then Some (substring 6 (String.length s - 6) s)
      else None
  | _ => None
  end.

(** The node under one segment. *)
Definition child (seg : string) (v : value) : value :=
  match v with
  | VObj fs => match lookup seg fs with Some x => x | None => VUndefined end
  | VArr xs =>
      match array_index seg with
      | Some i => nth i xs VUndefined
      | None => VUndefined
      end
  | _ => VUndefined
  end.

Definition node_at (segs : list string) (data : value) : value :=
  fold_left (fun v seg => child seg v) segs data.

(** One pass from the left: the canonical path, or the path to start over
    with once a reference is met. *)
Fixpoint walk (data : value) (done rest : list string)
  : list string + list string :=
  match rest with
  | [] => inl done
  | seg :: rest' =>
      let done' := (done ++ [seg])%list in
      match reference_target (node_at done' data) with
      | Some target => inr (Keys.segments target ++ rest')%list
      | None => walk data done' rest'
      end
  end.

Fixpoint resolve (bound : nat) (data : value) (segs : list string)
  : result (list string) :=
  match walk data [] segs with
  | inl canonical => Ok canonical
  | inr segs' =>
      match bound with
      | O => Throw CyclicReferenceError
      | S bound' => resolve bound' data segs'
      end
  end.

(** The segments of a path, its reference marker removed. *)
Definition path_segments (key : string) : list string :=
  match reference_target (VStr key) with
  | Some target => Keys.segments target
  | None => Keys.segments key
  end.

Definition resolveRefKey (store : Store) (key : string) : result string :=
  segs <- resolve MAX_REFERENCES (_data store) (path_segments key) ;;
  Ok (Keys.join segs).

Fixpoint mapM {A B : Type} (f : A -> result B) (xs : list A)
  : result (list B) :=
  match xs with
  | [] => Ok []
  | x :: xs' => y <- f x ;; ys <- mapM f xs' ;; Ok (y :: ys)
  end.

(** The children of a mapping or sequence that are references are replaced
    by their targets, in which references are expanded one level less. *)
Fixpoint expand (depth : nat) (data : value) (v : value) : result value :=
  match depth with
  | O => Ok v
  | S depth' =>
      let item (c : value) : result value :=
        match reference_target c with
        | Some target =>
            segs <- resolve MAX_REFERENCES data (Keys.segments target) ;;
            expand depth' data (node_at segs data)
        | None => Ok c
        end in
      match v with
      | VObj fs =>
          fs' <- mapM (fun kc => c' <- item (snd kc) ;; Ok (fst kc, c')) fs ;;
          Ok (VObj fs')
      | VArr xs => xs' <- mapM item xs ;; Ok (VArr xs')
      | _ => Ok v
      end
  end.

Definition missing (key : option string) : bool :=
  match key with
  | None => true
  | Some s => (s =? "")%string
  end.

(** [get(store, key, { referenceDepth })] *)
Definition get_depth (depth : nat) (store : Store) (key : option string)
  : result value :=
  if missing key then expand depth (_data store) (_data store)
  else
    segs <- resolve MAX_REFERENCES (_data store)
              (path_segments (property_key key)) ;;
    expand depth (_data store) (node_at segs (_data store)).

(** [get(store, key)], at the default depth. *)
Definition get : Store -> option string -> result value := get_depth 1.

Fixpoint update (k : string) (v : value) (fs : list (string * value))
  : list (string * value) :=
  match fs with
  | [] => [(k, v)]
  | (k', v') :: fs' =>
      if (k' =? k)%string then (k, v) :: fs' else (k', v') :: update k v fs'
  end.

Fixpoint update_nth (i : nat) (v : value) (xs : list value) : list value :=
  match i, xs with
  | O, [] => [v]
  | O, _ :: xs' => v :: xs'
  | S i', [] => VUndefined :: update_nth i' v []
  | S i', x :: xs' => x :: update_nth i' v xs'
  end.

(** [v] written under [segs]; a node on the way that cannot hold the next
    segment gives way to a new mapping. *)
Fixpoint write (segs : list string) (v : value) (node : value) : value :=
  match segs with
  | [] => v
  | seg :: segs' =>
      let below := write segs' v (child seg node) in
      match node with
      | VObj fs => VObj (update seg below fs)
      | VArr xs =>
          match array_index seg with
          | Some i => VArr (update_nth i below xs)
          | None => VObj [(seg, write segs' v VUndefined)]
          end
      | _ => VObj [(seg, write segs' v VUndefined)]
      end
  end.

(** [set(store, key, value)], without options. *)
Definition set (store : Store) (key : option string) (v : value)
  : result Store :=
  if missing key then Ok store
  else if negb (isWritable store) then Throw NotWritableError
  else
    segs <- resolve MAX_REFERENCES (_data store)
              (path_segments (property_key key)) ;;
    Ok {| _data := write segs v (_data store);
          isWritable := isWritable store;
          EXPIRES_KEY := EXPIRES_KEY store |}.

End SpecStore.

#[export] Instance spec_modules : Modules := {
  get := SpecStore.get;
  set := SpecStore.set;
  keys_length := Keys.length;
  keys_last := Keys.last;
  keys_slice := Keys.slice
}.

(** [StringToNumber], on strings of bytes: blanks are trimmed, the empty
    string is 0, then a signed [Infinity], a signed decimal literal with
    optional fraction and exponent, or an unsigned literal with the prefix
    [0x], [0o] or [0b]; anything else is [NaN].  [num] holds integers: a
    literal with a fraction stands as its floor, which the two comparisons
    of [fetch.js], against the integer clock and against 500, cannot tell
    from it.  The rounding of doubles beyond 2^53 is not modelled, and a
    literal too large for a double stays finite, which compares alike. *)
Module Numeric.

Definition is_space (c : ascii) : bool :=
  let n := nat_of_ascii c in
  ((9 <=? n) && (n <=? 13) || (n =? 32))%nat.

Fixpoint drop_spaces (cs : list ascii) : list ascii :=
  match cs with
  | [] => []
  | c :: cs' => if is_space c then drop_spaces cs' else cs
  end.

Definition trim (cs : list ascii) : list ascii :=
  rev (drop_spaces (rev (drop_spaces cs))).

Fixpoint span_digits (cs : list ascii) : list ascii * list ascii :=
  match cs with
  | [] => ([], [])
  | c :: cs' =>
      if is_digit c
      then let (ds, rest) := span_digits cs' in (c :: ds, rest)
      else ([], cs)
  end.

Definition decimal_value (ds : list ascii) : Z :=
  fold_left (fun acc c => 10 * acc + (Z.of_nat (nat_of_ascii c) - 48)) ds 0.

Definition digit_value (base : Z) (c : ascii) : option Z :=
  let n := Z.of_nat (nat_of_ascii c) in
  let d := if (48 <=? n) && (n <=? 57) then n - 48
           else if (97 <=? n) && (n <=? 102) then n - 87
           else if (65 <=? n) && (n <=? 70) then n - 55
           else base in
  if d <? base then Some d else None.

Fixpoint radix (base : Z) (cs : list ascii) (acc : Z) : option Z :=
  match cs with
  | [] => Some acc
  | c :: cs' =>
      match digit_value base c with
      | Some d => radix base cs' (acc * base + d)
      | None => None
      end
  end.

Definition radix_literal (base : Z) (cs : list ascii) : num :=
  match cs, radix base cs 0 with
  | _ :: _, Some z => Fin z
  | _, _ => NaN
  end.

(** The exponent part, or its absence, up to the end of the literal. *)
Definition exponent (cs : list ascii) : option Z :=
  match cs with
  | [] => Some 0
  | e :: rest =>
      if ((e =? "e") || (e =? "E"))%char then
        let (sign, ds) :=
          match rest with
          | c :: ds' =>
              if (c =? "+")%char then (1, ds')
              else if (c =? "-")%char then (-1, ds')
              else (1, rest)
          | [] => (1, rest)
          end in
        match span_digits ds with
        | (d :: ds', []) => Some (sign * decimal_value (d :: ds'))
        | _ => None
        end
      else None
  end.

Definition unsigned (negative : bool) (cs : list ascii) : num :=
  if (string_of_list_ascii cs =? "Infinity")%string
  then (if negative then NegInf else PosInf)
  else
    let (int_part, rest) := span_digits cs in
    let (frac_part, rest') :=
      match rest with
      | c :: r => if (c =? ".")%char then span_digits r else ([], rest)
      | [] => ([], rest)
      end in
    match int_part, frac_part, exponent rest' with
    | [], [], _ => NaN
    | _, _, None => NaN
    | _, _, Some e =>
        let m := decimal_value (int_part ++ frac_part) in
        let m := if negative then - m else m in
        let scale := e - Z.of_nat (List.length frac_part) in
        Fin (if 0 <=? scale then m * 10 ^ scale else m / 10 ^ (- scale))
    end.

Definition prefixed (c p : ascii) (lower upper : ascii) : bool :=
  ((c =? "0") && ((p =? lower) || (p =? upper)))%char.

Definition parse (s : string) : num :=
  match trim (list_ascii_of_string s) with
  | [] => Fin 0
  | c :: rest =>
      if (c =? "+")%char then unsigned false rest
      else if (c =? "-")%char then unsigned true rest
      else
        match rest with
        | p :: ds =>
            if prefixed c p "x" "X" then radix_literal 16 ds
            else if prefixed c p "o" "O" then radix_literal 8 ds
            else if prefixed c p "b" "B" then radix_literal 2 ds
            else unsigned false (c :: rest)
        | [] => unsigned false (c :: rest)
        end
  end.

(** [ToNumber] of a value of the data model.  An array goes through its
    [join]: no element is the empty string, one element is that element's
    string, more elements hold a comma.  An object literal is
    ['[object Object]'], an [Error] its name and message; objects that hold
    keys [toString] or [valueOf] of their own are outside. *)
Fixpoint number_of (v : value) : num :=
  match v with
  | VUndefined => NaN
  | VNull => Fin 0
  | VBool b => Fin (if b then 1 else 0)
  | VNum n => n
  | VStr s => parse s
  | VArr [] => Fin 0
  | VArr [x] =>
      match x with
      | VUndefined | VNull => Fin 0
      | VNum n => n
      | VStr s => parse s
      | VArr _ => number_of x
      | _ => NaN
      end
  | VArr _ => NaN
  | VObj _ => NaN
  | VError name props =>
      match lookup "message" props with
      | None | Some (VStr "") => parse name
      | Some (VStr message) =>
          if (name =? "")%string then parse message else NaN
      | Some _ => NaN
      end
  end.

End Numeric.

(** An engine for the examples, after Node.js: the names of
    [Object.prototype], [Array.prototype] (ECMAScript 2023) and
    [Error.prototype], and [stack], which V8 gives every [Error]. *)
Definition object_prototype : list string :=
  ["constructor"; "__defineGetter__"; "__defineSetter__"; "hasOwnProperty";
   "__lookupGetter__"; "__lookupSetter__"; "isPrototypeOf";
   "propertyIsEnumerable"; "toString"; "valueOf"; "__proto__";
   "toLocaleString"].

Definition array_prototype : list string :=
  ["at"; "concat"; "copyWithin"; "entries"; "every"; "fill"; "filter";
   "find"; "findIndex"; "findLast"; "findLastIndex"; "flat"; "flatMap";
   "forEach"; "includes"; "indexOf"; "join"; "keys"; "lastIndexOf"; "map";
   "pop"; "push"; "reduce"; "reduceRight"; "reverse"; "shift"; "slice";
   "some"; "sort"; "splice"; "toReversed"; "toSorted"; "toSpliced";
   "unshift"; "values"; "with"].

Definition error_prototype : list string := ["name"; "message"; "stack"].

Definition names (names : list string) (k : string) : bool :=
  existsb (fun name => (name =? k)%string) names.

#[export] Instance example_engine : Engine := {
  inherited := fun v k =>
    match v with
    | VObj _ => names object_prototype k
    | VArr _ => names array_prototype k || names object_prototype k
    | VError _ _ => names error_prototype k || names object_prototype k
    | _ => false
    end;
  to_number_rest := Numeric.number_of
}.

(** The stores of the repository's tests, with [EXPIRES_KEY] [__expires]. *)
Definition store_of (data : value) : Store :=
  {| _data := data; isWritable := true; EXPIRES_KEY := "__expires" |}.

Definition data_store : Store :=
  store_of (VObj [
    ("bar", VStr "bat");
    ("boo", VObj [("bar", VStr "foo");
                  ("bat", VObj [("foo", VStr "foo")])]);
    ("foo", VObj [("bar", VStr "foo");
                  ("boo", VStr "__ref:boo");
                  ("bat", VStr "__ref:bar")]);
    ("bat", VArr [VStr "foo"; VStr "bar"]);
    ("boop", VArr [VStr "__ref:bar"; VStr "__ref:foo"])]).

Definition fetchable_data : list (string * value) :=
  [("bar", VStr "bat");
   ("boo", VStr "foo");
   ("foo", VObj [("bar", VStr "boo");
                 ("boo", VObj [("bar", VStr "foo")])]);
   ("bat", VArr [VStr "foo"; VStr "bar"])].

Definition fetchable_store : Store := store_of (VObj fetchable_data).

(** A stale entry of the fetchable store: [foo] expired at time 0. *)
Definition stale_store : Store :=
  store_of (VObj [("foo", VObj [("bar", VStr "boo");
                                ("__expires", VNum (Fin 0))])]).

Definition foo_url : option string := Some "http://localhost/foo".

(** An entry that expires at time 1000. *)
Definition boundary_store : Store :=
  store_of (VObj [("foo", VObj [("bar", VStr "boo");
                                ("__expires", VNum (Fin 1000))])]).

(** A failure of the load that carries a status. *)
Definition failure (status : Z) : value :=
  VError "Error" [("status", VNum (Fin status))].

(** [err.status >= 500], false as well when [err.status] cannot be read. *)
Definition server_error {engine : Engine} (err : value) : bool :=
  match js_prop err "status" with
  | Ok status => num_ge (to_number status) (Fin 500)
  | Throw _ => false
  end.

(** A load was issued and fulfilled. *)
Definition load_succeeded (issued : bool) (o : outcome) : bool :=
  issued && match o with Succeeds _ => true | _ => false end.

(** A load was issued and failed with a status of 500 or more. *)
Definition load_failed_5xx {engine : Engine} (issued : bool) (o : outcome)
  : bool :=
  issued && match o with Fails err => server_error err | _ => false end.

(** [{ reload: true, staleWhileRevalidate: true }] *)
Definition revalidate_and_reload : Options :=
  {| abort := false; ignoreQuery := false; minExpiry := None;
     reload := true; retry := None; staleWhileRevalidate := true;
     staleIfError := false; timeout := None; rejectOnError := false |}.

(** [{ rejectOnError: true, retry: 0, timeout: 100 }] *)
Definition reject_on_error : Options :=
  {| abort := false; ignoreQuery := false; minExpiry := None;
     reload := false; retry := Some 0; staleWhileRevalidate := false;
     staleIfError := false; timeout := Some 100; rejectOnError := true |}.

(** [{ staleIfError: true }] *)
Definition stale_if_error : Options :=
  {| abort := false; ignoreQuery := false; minExpiry := None;
     reload := false; retry := None; staleWhileRevalidate := false;
     staleIfError := true; timeout := None; rejectOnError := false |}.

Definition stale_foo : value :=
  VObj [("bar", VStr "boo"); ("__expires", VNum (Fin 0))].

Definition boundary_foo : value :=
  VObj [("bar", VStr "boo"); ("__expires", VNum (Fin 1000))].

(** A value that is neither absent nor an object. *)
Definition is_scalar (v : value) : bool :=
  match v with
  | VBool _ | VNum _ | VStr _ => true
  | _ => false
  end.

(** Two option objects that agree on what line 25 of [fetch.js] reads. *)
Definition same_policy (o o' : Options) : Prop :=
  reload o = reload o' /\
  staleWhileRevalidate o = staleWhileRevalidate o' /\
  staleIfError o = staleIfError o'.

(** Calls without their arguments: [true] for a load, [false] for a
    reload. *)
Definition kinds (es : list event) : list bool := map is_Load es.

(** What a fulfilled load hands over in the examples. *)
Definition loaded : LoadResponse :=
  {| duration := VNum (Fin 12);
     headers := VObj [("status", VNum (Fin 200))] |}.

(** The store once the load has written its body at [foo]. *)
Definition reloaded_store : Store :=
  store_of (VObj [("foo", VObj [("foo", VStr "foo");
                                ("__expires", VNum (Fin 11000))])]).

(** A store with nothing in it, and one that holds a zero. *)
Definition empty_store : Store := store_of (VObj []).

Definition counter_store : Store :=
  store_of (VObj [("count", VNum (Fin 0))]).

(** A store in which [foo] refers to itself. *)
Definition cyclic_store : Store :=
  store_of (VObj [("foo", VStr "__ref:foo")]).

(** All the calls of a run, in order. *)
Definition calls (r : Run) : list event :=
  (before_return r ++ after_settle r)%list.

(** ** Properties *)

Section Properties.
Context {engine : Engine} {modules : Modules}.

(** *** The expiry test *)

Lemma hasExpired_total (now : Z) (v : value) (k : string) :
  exists b, hasExpired now v k = Ok b.
Proof.
  unfold hasExpired.
  destruct (truthy v); simpl; [| now exists false].
  destruct v; simpl; try now exists false.
  destruct (_ || _); simpl; eauto.
Qed.

Lemma hasExpired_truthy (now : Z) (v : value) (k : string) :
  hasExpired now v k = Ok true -> truthy v = true.
Proof.
  unfold hasExpired. destruct (truthy v); simpl; congruence.
Qed.

Lemma hasExpired_record (now : Z) (fs : list (string * value)) (k : string)
    (x : value) :
  lookup k fs = Some x ->
  hasExpired now (VObj fs) k = Ok (num_gt (Fin now) (to_number x)).
Proof.
  intros H. unfold hasExpired. simpl. now rewrite H.
Qed.

Lemma hasExpired_no_record (now : Z) (v : value) (k : string) :
  has_own k v = false -> hasExpired now v k = Ok false.
Proof.
  intros H. unfold hasExpired.
  destruct (truthy v); simpl; trivial.
  destruct v; simpl; trivial.
  simpl in H. destruct (lookup k fields); [discriminate |].
  simpl. now destruct (inherited (VObj fields) k).
Qed.

Lemma num_gt_asym (a b : num) : num_gt a b = true -> num_gt b a = false.
Proof.
  destruct a, b; simpl; trivial; try discriminate.
  intros H. apply Z.ltb_lt in H. apply Z.ltb_ge. lia.
Qed.

(** *** The three ways through [fetch] *)

Lemma fetch_fresh (now : Z) (store : Store) (key url : option string)
    (options : Options) (val : value) :
  get store key = Ok val ->
  truthy val = true ->
  hasExpired now val (EXPIRES_KEY store) = Ok false ->
  fetch now store key url options =
  Ok {| effects := if reload options then [Reload key url options] else [];
        returns := ResolvedNow (stored_response val);
        loading := None |}.
Proof.
  intros Hget Hval Hexp. unfold fetch.
  rewrite Hget. simpl. rewrite Hval. simpl. now rewrite Hexp.
Qed.

Lemma fetch_waits (now : Z) (store : Store) (key url : option string)
    (options : Options) (val : value) :
  get store key = Ok val ->
  truthy val = false \/ hasExpired now val (EXPIRES_KEY store) = Ok true ->
  truthy val && staleWhileRevalidate options = false ->
  fetch now store key url options =
  Ok {| effects := [Load key url options];
        returns := PromiseToLoad;
        loading := Some val |}.
Proof.
  intros Hget Hstale Hwait. unfold fetch.
  rewrite Hget. simpl. rewrite Hwait.
  destruct Hstale as [H | H].
  - now rewrite H.
  - rewrite H. now destruct (truthy val).
Qed.

Lemma fetch_revalidates (now : Z) (store : Store) (key url : option string)
    (options : Options) (val : value) :
  get store key = Ok val ->
  hasExpired now val (EXPIRES_KEY store) = Ok true ->
  staleWhileRevalidate options = true ->
  fetch now store key url options =
  Ok {| effects :=
          Load key url options ::
          (if reload options then [Reload key url options] else []);
        returns := ResolvedNow (stored_response val);
        loading := Some val |}.
Proof.
  intros Hget Hexp Hswr. unfold fetch.
  rewrite Hget. simpl.
  rewrite (hasExpired_truthy _ _ _ Hexp). simpl.
  now rewrite Hexp, Hswr.
Qed.

(** *** The callbacks on the load *)

Lemma on_failed_status (key url : option string) (options : Options)
    (val err status : value) :
  js_prop err "status" = Ok status ->
  on_failed key url options val err =
  (if server_error err && reload options
   then [Reload key url options] else [],
   Ok (VObj [("duration", VNum (Fin 0));
             ("error", err);
             ("headers", VObj [("status", status)]);
             ("data", if staleIfError options then val else VNull)])).
Proof.
  intros H. unfold on_failed, server_error. now rewrite H.
Qed.

Lemma on_failed_reloads (key url : option string) (options : Options)
    (val err : value) :
  reloads (fst (on_failed key url options val err)) =
  if server_error err && reload options then 1%nat else 0%nat.
Proof.
  unfold on_failed, server_error.
  destruct (js_prop err "status"); simpl; trivial.
  now destruct (num_ge _ _ && reload options).
Qed.

Lemma on_failed_loads (key url : option string) (options : Options)
    (val err : value) :
  loads (fst (on_failed key url options val err)) = 0%nat.
Proof.
  unfold on_failed.
  destruct (js_prop err "status"); simpl; trivial.
  now destruct (num_ge _ _ && reload options).
Qed.

Lemma settle_never_rejects (store : Store) (key url : option string)
    (options : Options) (val : value) (o : outcome) (reason : value) :
  snd (settle store key url options val o) <> Rejected reason.
Proof.
  unfold settle. destruct o as [res | err |].
  - destruct (on_loaded store key url options res) as [es [response | e]].
    + discriminate.
    + destruct (on_failed key url options val e) as [es' [response | e']];
        discriminate.
  - destruct (on_failed key url options val err) as [es [response | e]];
      discriminate.
  - discriminate.
Qed.

Lemma on_loaded_loads (store : Store) (key url : option string)
    (options : Options) (res : LoadResponse) :
  loads (fst (on_loaded store key url options res)) = 0%nat.
Proof.
  unfold on_loaded. simpl. now destruct (reload options).
Qed.

Lemma settle_loads (store : Store) (key url : option string)
    (options : Options) (val : value) (o : outcome) :
  loads (fst (settle store key url options val o)) = 0%nat.
Proof.
  unfold settle. destruct o as [res | err |]; trivial.
  - pose proof (on_loaded_loads store key url options res) as Hl.
    destruct (on_loaded store key url options res) as [es [response | e]];
      simpl in *; trivial.
    pose proof (on_failed_loads key url options val e) as Hf.
    destruct (on_failed key url options val e) as [es' r]. simpl in *.
    unfold loads in *. rewrite filter_app, length_app. lia.
  - pose proof (on_failed_loads key url options val err) as Hf.
    now destruct (on_failed key url options val err) as [es r].
Qed.

(** *** Runs *)

Lemma run_fresh (now : Z) (store store' : Store) (key url : option string)
    (options : Options) (o : outcome) (val : value) :
  get store key = Ok val ->
  truthy val = true ->
  hasExpired now val (EXPIRES_KEY store) = Ok false ->
  run now store store' key url options o =
  Ok {| before_return :=
          if reload options then [Reload key url options] else [];
        at_return := Fulfilled (stored_response val);
        after_settle := [];
        final := Fulfilled (stored_response val) |}.
Proof.
  intros Hget Hval Hexp. unfold run.
  now rewrite (fetch_fresh _ _ _ _ _ _ Hget Hval Hexp).
Qed.

Lemma run_waits (now : Z) (store store' : Store) (key url : option string)
    (options : Options) (o : outcome) (val : value) :
  get store key = Ok val ->
  truthy val = false \/ hasExpired now val (EXPIRES_KEY store) = Ok true ->
  truthy val && staleWhileRevalidate options = false ->
  run now store store' key url options o =
  Ok {| before_return := [Load key url options];
        at_return := Pending;
        after_settle := fst (settle store' key url options val o);
        final := snd (settle store' key url options val o) |}.
Proof.
  intros Hget Hstale Hwait. unfold run.
  rewrite (fetch_waits _ _ _ _ _ _ Hget Hstale Hwait). simpl.
  now destruct (settle store' key url options val o).
Qed.

Lemma run_revalidates (now : Z) (store store' : Store)
    (key url : option string) (options : Options) (o : outcome)
    (val : value) :
  get store key = Ok val ->
  hasExpired now val (EXPIRES_KEY store) = Ok true ->
  staleWhileRevalidate options = true ->
  run now store store' key url options o =
  Ok {| before_return :=
          Load key url options ::
          (if reload options then [Reload key url options] else []);
        at_return := Fulfilled (stored_response val);
        after_settle := fst (settle store' key url options val o);
        final := Fulfilled (stored_response val) |}.
Proof.
  intros Hget Hexp Hswr. unfold run.
  rewrite (fetch_revalidates _ _ _ _ _ _ Hget Hexp Hswr). simpl.
  now destruct (settle store' key url options val o).
Qed.

(** X9.  Whatever the options, [rejectOnError] among them, and however the
    load settles, the promise of a run is never rejected. *)
Lemma run_never_rejects (now : Z) (store store' : Store)
    (key url : option string) (options : Options) (o : outcome) (r : Run)
    (reason : value) :
  run now store store' key url options o = Ok r ->
  final r <> Rejected reason.
Proof.
  unfold run. destruct (fetch now store key url options) as [call | e];
    simpl; [| discriminate].
  destruct (loading call) as [val |].
  - pose proof (settle_never_rejects store' key url options val o reason).
    destruct (settle store' key url options val o) as [es p].
    intros [= <-]. simpl in *. now destruct (returns call).
  - intros [= <-]. simpl. now destruct (returns call).
Qed.

(** *** remove *)

Lemma remove_present (store : Store) (key : string) (data : value) :
  parent store key = Ok data ->
  truthy data = true ->
  js_in (property_key (terminal key)) data = Ok true ->
  remove store key = set store (terminal key) VUndefined.
Proof.
  intros Hp Ht Hin. unfold remove. rewrite Hp. simpl.
  rewrite Ht, Hin. reflexivity.
Qed.

(** X1.  On a key of one segment that the root contains, [remove] is
    [set] of that key to [undefined]. *)
Lemma remove_single_segment (store : Store) (key : string) :
  keys_length key = 1%nat ->
  js_in key (_data store) = Ok true ->
  remove store key = set store (Some key) VUndefined.
Proof.
  intros Hlen Hin.
  assert (Ht : terminal key = Some key) by (unfold terminal; now rewrite Hlen).
  rewrite (remove_present store key (_data store)); rewrite ?Ht; trivial.
  - unfold parent. now rewrite Hlen.
  - destruct (_data store); simpl in Hin; try discriminate; reflexivity.
Qed.

(** X2.  On a key that is not of one segment and whose parent contains
    the last segment, [remove] is [set] of the last segment alone to
    [undefined]. *)
Lemma remove_nested (store : Store) (key : string) (data : value) :
  keys_length key <> 1%nat ->
  get store (Some (keys_slice key 0 (-1))) = Ok data ->
  truthy data = true ->
  js_in (property_key (keys_last key)) data = Ok true ->
  remove store key = set store (keys_last key) VUndefined.
Proof.
  intros Hlen Hget Ht Hin.
  apply Nat.eqb_neq in Hlen.
  assert (Hk : terminal key = keys_last key)
    by (unfold terminal; now rewrite Hlen).
  rewrite (remove_present store key data); rewrite ?Hk; trivial.
  unfold parent. now rewrite Hlen.
Qed.

(** C8, amended.  When the parent of a path is absent (or another falsy
    value), or is an object or array in which the terminal key is not found
    by [in], neither as an own property nor through the prototype chain,
    [remove] returns without an error and the store, its data tree with it,
    is what it was. *)
Theorem remove_absent_is_noop (store : Store) (key : string) (data : value) :
  parent store key = Ok data ->
  truthy data = false \/
  js_in (property_key (terminal key)) data = Ok false ->
  remove store key = Ok store.
Proof.
  intros Hp H. unfold remove. rewrite Hp. simpl.
  destruct (truthy data) eqn:Ht.
  - destruct H as [H | H]; [discriminate |]. now rewrite H.
  - reflexivity.
Qed.

(** *** fetch *)


(** C5.  When the value at the key has expired and
    [options.staleWhileRevalidate] is set, the promise [fetch] returns is
    already resolved with [{ duration: 0, headers: { status: 200 }, data }]
    of the stale value, however and whether the load settles, and the load
    has been issued, once. *)
Theorem stale_while_revalidate_resolves_at_once (now : Z)
    (store store' : Store) (key url : option string) (options : Options)
    (o : outcome) (val : value) :
  get store key = Ok val ->
  hasExpired now val (EXPIRES_KEY store) = Ok true ->
  staleWhileRevalidate options = true ->
  exists r,
    run now store store' key url options o = Ok r /\
    at_return r =
      Fulfilled (VObj [("duration", VNum (Fin 0));
                       ("headers", VObj [("status", VNum (Fin 200))]);
                       ("data", val)]) /\
    final r = at_return r /\
    In (Load key url options) (before_return r) /\
    loads (calls r) = 1%nat.
Proof.
  intros Hget Hexp Hswr.
  rewrite (run_revalidates _ _ _ _ _ _ _ _ Hget Hexp Hswr).
  eexists. split; [reflexivity |]. simpl.
  repeat split; auto.
  unfold calls, loads. simpl.
  rewrite filter_app, length_app.
  pose proof (settle_loads store' key url options val o) as Hs.
  unfold loads in Hs. rewrite Hs.
  now destruct (reload options).
Qed.

(** C6, amended.  When the value at the key is truthy (a stored 0, empty
    string, [false] or [null] counts as missing) and either carries no
    expiry record or one whose timestamp is after the current time, no load
    is issued, before or after [fetch] returns, and the promise is resolved
    with [{ duration: 0, headers: { status: 200 }, data }] of the stored
    value. *)
Theorem fresh_value_served_without_load (now : Z) (store store' : Store)
    (key url : option string) (options : Options) (o : outcome)
    (val : value) :
  get store key = Ok val ->
  truthy val = true ->
  has_own (EXPIRES_KEY store) val = false \/
  (exists fs n,
     val = VObj fs /\
     lookup (EXPIRES_KEY store) fs = Some (VNum n) /\
     num_gt n (Fin now) = true) ->
  exists r,
    run now store store' key url options o = Ok r /\
    loads (calls r) = 0%nat /\
    final r =
      Fulfilled (VObj [("duration", VNum (Fin 0));
                       ("headers", VObj [("status", VNum (Fin 200))]);
                       ("data", val)]) /\
    at_return r = final r.
Proof.
  intros Hget Hval Hfresh.
  assert (Hexp : hasExpired now val (EXPIRES_KEY store) = Ok false).
  { destruct Hfresh as [Hnone | (fs & n & -> & Hrec & Hgt)].
    - now apply hasExpired_no_record.
    - rewrite (hasExpired_record now fs _ _ Hrec).
      change (to_number (VNum n)) with n.
      now rewrite (num_gt_asym _ _ Hgt). }
  rewrite (run_fresh _ _ _ _ _ _ _ _ Hget Hval Hexp).
  eexists. split; [reflexivity |]. simpl.
  repeat split. unfold calls, loads. simpl.
  now destruct (reload options).
Qed.

Lemma reloads_after_load (key url : option string) (options : Options)
    (es : list event) :
  reloads (Load key url options :: es) = reloads es.
Proof. reflexivity. Qed.

Lemma settle_reloads (store : Store) (key url : option string)
    (options : Options) (val : value) (o : outcome) :
  (0 <? reloads (fst (settle store key url options val o)))%nat =
  reload options && (load_succeeded true o || load_failed_5xx true o).
Proof.
  unfold settle, load_succeeded, load_failed_5xx.
  destruct o as [res | err |]; simpl.
  - unfold on_loaded.
    destruct (get store key) as [data | e]; simpl.
    + destruct (reload options); reflexivity.
    + pose proof (on_failed_reloads key url options val e) as Hf.
      destruct (on_failed key url options val e) as [es' r]. simpl in *.
      unfold reloads in *. rewrite filter_app, length_app, Hf.
      destruct (reload options); simpl; [reflexivity |].
      now rewrite andb_false_r.
  - pose proof (on_failed_reloads key url options val err) as Hf.
    destruct (on_failed key url options val err) as [es r]. simpl in *.
    rewrite Hf.
    destruct (server_error err), (reload options); reflexivity.
  - now rewrite andb_false_r.
Qed.

(** C7, amended.  A background reload is scheduled exactly when
    [options.reload] is set and one of the following holds: the load
    succeeded, the load failed with a status of 500 or more, the stored
    value was fresh, or the stored value was stale and served at once under
    [options.staleWhileRevalidate]. *)
Theorem reload_scheduled_iff (now : Z) (store store' : Store)
    (key url : option string) (options : Options) (o : outcome)
    (val : value) (expired : bool) :
  get store key = Ok val ->
  hasExpired now val (EXPIRES_KEY store) = Ok expired ->
  let issued := negb (truthy val) || expired in
  exists r,
    run now store store' key url options o = Ok r /\
    ((0 < reloads (calls r))%nat <->
     reload options = true /\
     (load_succeeded issued o = true \/
      load_failed_5xx issued o = true \/
      (truthy val = true /\ expired = false) \/
      (truthy val = true /\ expired = true /\
       staleWhileRevalidate options = true))).
Proof.
  intros Hget Hexp issued. subst issued.
  pose proof (settle_reloads store' key url options val o) as Hs.
  destruct (truthy val) eqn:Hval; simpl.
  - destruct expired.
    + destruct (staleWhileRevalidate options) eqn:Hswr.
      * rewrite (run_revalidates _ _ _ _ _ _ _ _ Hget Hexp Hswr).
        eexists. split; [reflexivity |]. unfold calls, reloads. simpl.
        destruct (reload options); simpl.
        -- split; [intros _ | lia]. split; trivial.
           right. right. right. auto.
        -- split; [| intros [? _]; discriminate].
           intros H. exfalso.
           apply Nat.ltb_lt in H. unfold reloads in Hs.
           rewrite Hs in H. discriminate.
      * rewrite (run_waits _ _ _ _ _ _ _ _ Hget (or_intror Hexp))
          by now rewrite Hval, Hswr.
        eexists. split; [reflexivity |].
        cbn [calls before_return after_settle app].
        rewrite reloads_after_load, <- Nat.ltb_lt, Hs.
        unfold load_succeeded, load_failed_5xx. simpl.
        rewrite andb_true_iff, orb_true_iff.
        split.
        -- intros [Hr [H | H]]; auto.
        -- intros [Hr [H | [H | [[_ H] | [_ [_ H]]]]]]; auto; discriminate.
    + rewrite (run_fresh _ _ _ _ _ _ _ _ Hget Hval Hexp).
      eexists. split; [reflexivity |]. unfold calls, reloads. simpl.
      destruct (reload options); simpl.
      * split; [intros _ | lia]. split; trivial. right. right. left. auto.
      * split; [lia | intros [? _]; discriminate].
  - rewrite (run_waits _ _ _ _ _ _ _ _ Hget (or_introl Hval))
      by now rewrite Hval.
    eexists. split; [reflexivity |].
    cbn [calls before_return after_settle app].
    rewrite reloads_after_load, <- Nat.ltb_lt, Hs.
    unfold load_succeeded, load_failed_5xx. simpl.
    rewrite andb_true_iff, orb_true_iff.
    split.
    + intros [Hr [H | H]]; auto.
    + intros [Hr [H | [H | [[H _] | [H _]]]]]; auto; discriminate.
Qed.

(** C9.  When the value at the key has expired and both
    [options.staleWhileRevalidate] and [options.reload] are set, [reload] is
    called twice for the key: once before [fetch] returns its resolved
    promise, and once more when the load settles, be it fulfilled (the store
    then answering the lookup of the key) or rejected with a status of 500
    or more. *)
Theorem revalidation_schedules_reload_twice (now : Z) (store store' : Store)
    (key url : option string) (options : Options) (o : outcome)
    (val : value) :
  get store key = Ok val ->
  hasExpired now val (EXPIRES_KEY store) = Ok true ->
  staleWhileRevalidate options = true ->
  reload options = true ->
  (exists res data, o = Succeeds res /\ get store' key = Ok data) \/
  (exists err, o = Fails err /\ server_error err = true) ->
  exists r,
    run now store store' key url options o = Ok r /\
    before_return r = [Load key url options; Reload key url options] /\
    (exists response, at_return r = Fulfilled response) /\
    after_settle r = [Reload key url options] /\
    reloads (calls r) = 2%nat.
Proof.
  intros Hget Hexp Hswr Hreload Hsettles.
  rewrite (run_revalidates _ _ _ _ _ _ _ _ Hget Hexp Hswr).
  eexists. split; [reflexivity |].
  cbn [before_return at_return after_settle calls].
  rewrite Hreload.
  assert (Hs : fst (settle store' key url options val o)
               = [Reload key url options]).
  { destruct Hsettles as [(res & data & -> & Hget') | (err & -> & H5xx)].
    - unfold settle, on_loaded. rewrite Hget', Hreload. reflexivity.
    - unfold settle, on_failed. unfold server_error in H5xx.
      destruct (js_prop err "status") as [status | e]; [| discriminate].
      rewrite H5xx, Hreload. reflexivity. }
  rewrite Hs. repeat split; eauto.
Qed.

(** C10.  When no value exists at the key and the load fails, the promise
    is resolved with a response whose [data] is [undefined] when
    [options.staleIfError] is set, and [null] when it is not. *)
Theorem failed_load_without_value (now : Z) (store store' : Store)
    (key url : option string) (options : Options) (err status : value) :
  get store key = Ok VUndefined ->
  js_prop err "status" = Ok status ->
  exists r,
    run now store store' key url options (Fails err) = Ok r /\
    (staleIfError options = true ->
     final r =
       Fulfilled (VObj [("duration", VNum (Fin 0));
                        ("error", err);
                        ("headers", VObj [("status", status)]);
                        ("data", VUndefined)])) /\
    (staleIfError options = false ->
     final r =
       Fulfilled (VObj [("duration", VNum (Fin 0));
                        ("error", err);
                        ("headers", VObj [("status", status)]);
                        ("data", VNull)])).
Proof.
  intros Hget Hstatus.
  rewrite (run_waits _ _ _ _ _ _ _ _ Hget (or_introl eq_refl) eq_refl).
  eexists. split; [reflexivity |].
  cbn [final settle]. rewrite (on_failed_status _ _ _ _ _ _ Hstatus).
  split; intros ->; reflexivity.
Qed.

(** X8.  A failed load that the promise waits for: the response is
    [{ duration: 0, error, headers: { status }, data }], where [data] is the
    value read before the load when [options.staleIfError] is set and
    [null] otherwise. *)
Lemma failed_load_response (now : Z) (store store' : Store)
    (key url : option string) (options : Options)
    (val err status : value) :
  get store key = Ok val ->
  truthy val = false \/ hasExpired now val (EXPIRES_KEY store) = Ok true ->
  truthy val && staleWhileRevalidate options = false ->
  js_prop err "status" = Ok status ->
  exists r,
    run now store store' key url options (Fails err) = Ok r /\
    final r =
      Fulfilled (VObj [("duration", VNum (Fin 0));
                       ("error", err);
                       ("headers", VObj [("status", status)]);
                       ("data",
                        if staleIfError options then val else VNull)]).
Proof.
  intros Hget Hstale Hwait Hstatus.
  rewrite (run_waits _ _ _ _ _ _ _ _ Hget Hstale Hwait).
  eexists. split; [reflexivity |].
  cbn [final settle]. now rewrite (on_failed_status _ _ _ _ _ _ Hstatus).
Qed.

End Properties.

(** ** The model of the required modules on the repository's tests *)

Example resolveRefKey_nested :
  SpecStore.resolveRefKey data_store "foo/boo/bat/foo" = Ok "boo/bat/foo" /\
  SpecStore.resolveRefKey data_store "zing/zoop" = Ok "zing/zoop".
Proof. split; reflexivity. Qed.

Example get_referenced_value :
  get data_store (Some "foo") =
  Ok (VObj [("bar", VStr "foo");
            ("boo", VObj [("bar", VStr "foo");
                          ("bat", VObj [("foo", VStr "foo")])]);
            ("bat", VStr "bat")]) /\
  SpecStore.get_depth 0 data_store (Some "foo") =
  Ok (VObj [("bar", VStr "foo");
            ("boo", VStr "__ref:boo");
            ("bat", VStr "__ref:bar")]) /\
  get data_store (Some "/bar") = Ok (VStr "bat") /\
  get data_store None = SpecStore.get_depth 1 data_store (Some "").
Proof. repeat split; reflexivity. Qed.

Example set_then_get :
  exists store',
    set data_store (Some "foo/boo/bar") (VStr "bar") = Ok store' /\
    get store' (Some "boo/bar") = Ok (VStr "bar").
Proof. eexists. split; reflexivity. Qed.

(** ** remove on the fetchable store *)

(** C1.  [foo] contains [bar], yet [remove(store, 'foo/bar')] is
    [set(store, 'bar', undefined)]: afterwards [foo/bar] still reads
    ['boo'], the key [bar] of the root reads [undefined], and the tree is
    not the one [set(store, 'foo/bar', undefined)] gives. *)
Theorem remove_nested_key_clears_root_key :
  get fetchable_store (Some "foo") =
    Ok (VObj [("bar", VStr "boo"); ("boo", VObj [("bar", VStr "foo")])]) /\
  remove fetchable_store "foo/bar" =
    set fetchable_store (Some "bar") VUndefined /\
  exists store',
    remove fetchable_store "foo/bar" = Ok store' /\
    get store' (Some "foo/bar") = Ok (VStr "boo") /\
    get store' (Some "bar") = Ok VUndefined /\
    set fetchable_store (Some "foo/bar") VUndefined <> Ok store'.
Proof.
  split; [reflexivity |]. split; [reflexivity |].
  eexists. split; [vm_compute; reflexivity |].
  split; [reflexivity |]. split; [reflexivity |].
  vm_compute. discriminate.
Qed.

(** A parent that contains the key, for a key of one segment. *)
Example remove_root_key :
  remove fetchable_store "bar" = set fetchable_store (Some "bar") VUndefined /\
  exists store',
    remove fetchable_store "bar" = Ok store' /\
    get store' (Some "bar") = Ok VUndefined.
Proof.
  split; [reflexivity |].
  eexists. split; reflexivity.
Qed.

Lemma remove_absent_is_noop_witness :
  (parent fetchable_store "foo/zing" =
     Ok (VObj [("bar", VStr "boo"); ("boo", VObj [("bar", VStr "foo")])]) /\
   js_in "zing"
     (VObj [("bar", VStr "boo"); ("boo", VObj [("bar", VStr "foo")])]) =
     Ok false) /\
  remove fetchable_store "foo/zing" = Ok fetchable_store.
Proof.
  split; [split; reflexivity |].
  apply (remove_absent_is_noop fetchable_store "foo/zing"
           (VObj [("bar", VStr "boo"); ("boo", VObj [("bar", VStr "foo")])])).
  - reflexivity.
  - right. reflexivity.
Defined.

(** C8 as stated fails on two kinds of path whose parent does not hold
    the terminal key.  Under [bar], which is the string ['bat'], the [in]
    of line 19 throws a [TypeError]; and [toString], which [foo] does not
    hold but reaches through its prototype, passes the [in] test, so that
    [set] is called and the root gets a key [toString]. *)
Lemma remove_of_absent_key_throws_or_writes :
  (parent fetchable_store "bar/zing" = Ok (VStr "bat") /\
   remove fetchable_store "bar/zing" = Throw TypeError) /\
  (parent fetchable_store "foo/toString" =
     Ok (VObj [("bar", VStr "boo"); ("boo", VObj [("bar", VStr "foo")])]) /\
   lookup "toString"
     [("bar", VStr "boo"); ("boo", VObj [("bar", VStr "foo")])] = None /\
   remove fetchable_store "foo/toString" =
     Ok (store_of (VObj (fetchable_data ++ [("toString", VUndefined)]))) /\
   store_of (VObj (fetchable_data ++ [("toString", VUndefined)]))
     <> fetchable_store).
Proof.
  split; [split; reflexivity |].
  split; [reflexivity |]. split; [reflexivity |]. split; [reflexivity |].
  discriminate.
Qed.

(** The parent itself absent. *)
Example remove_under_absent_parent :
  parent fetchable_store "zing/zoop" = Ok VUndefined /\
  remove fetchable_store "zing/zoop" = Ok fetchable_store.
Proof.
  split; reflexivity.
Qed.

(** Under a parent that is a string ([bar] is ['bat']), the [in] of line
    19 throws. *)
Example remove_under_string_throws :
  remove fetchable_store "bar/zing" = Throw TypeError.
Proof. reflexivity. Qed.

(** A name found through the prototype chain counts as contained. *)
Example remove_inherited_name :
  js_in "toString" (_data fetchable_store) = Ok true /\
  remove fetchable_store "toString" =
    set fetchable_store (Some "toString") VUndefined.
Proof. split; reflexivity. Qed.

(** ** fetch on the stores of the tests *)

(** C2.  Nothing in [fetch] looks for a missing key or url.  With no url
    and no value at the key, the load is issued and the promise waits for
    it; with no key, [get] answers with the whole tree and the promise is
    resolved with status 200 and that tree as data. *)
Theorem fetch_without_url_or_key_is_not_refused :
  fetch 1000 fetchable_store (Some "boop") None no_options =
    Ok {| effects := [Load (Some "boop") None no_options];
          returns := PromiseToLoad;
          loading := Some VUndefined |} /\
  fetch 1000 fetchable_store None (Some "bar") no_options =
    Ok {| effects := [];
          returns :=
            ResolvedNow
              (VObj [("duration", VNum (Fin 0));
                     ("headers", VObj [("status", VNum (Fin 200))]);
                     ("data", VObj fetchable_data)]);
          loading := None |}.
Proof. split; reflexivity. Qed.



(** C4.  The load fails with status 500 and [options.rejectOnError] is
    [true]: the promise is resolved, not rejected. *)
Theorem rejectOnError_failure_is_resolved :
  rejectOnError reject_on_error = true /\
  run 1000 fetchable_store fetchable_store (Some "beep")
      (Some "http://localhost/beep") reject_on_error (Fails (failure 500)) =
    Ok {| before_return :=
            [Load (Some "beep") (Some "http://localhost/beep")
                  reject_on_error];
          at_return := Pending;
          after_settle := [];
          final :=
            Fulfilled
              (VObj [("duration", VNum (Fin 0));
                     ("error", failure 500);
                     ("headers", VObj [("status", VNum (Fin 500))]);
                     ("data", VNull)]) |}.
Proof. split; reflexivity. Qed.

Lemma stale_while_revalidate_resolves_at_once_witness :
  (get stale_store (Some "foo") = Ok stale_foo /\
   hasExpired 1000 stale_foo (EXPIRES_KEY stale_store) = Ok true /\
   staleWhileRevalidate revalidate_and_reload = true) /\
  exists r,
    run 1000 stale_store stale_store (Some "foo") foo_url
        revalidate_and_reload NeverSettles = Ok r /\
    at_return r =
      Fulfilled (VObj [("duration", VNum (Fin 0));
                       ("headers", VObj [("status", VNum (Fin 200))]);
                       ("data", stale_foo)]) /\
    final r = at_return r /\
    In (Load (Some "foo") foo_url revalidate_and_reload) (before_return r) /\
    loads (calls r) = 1%nat.
Proof.
  split; [repeat split; reflexivity |].
  apply (stale_while_revalidate_resolves_at_once 1000 stale_store stale_store
           (Some "foo") foo_url revalidate_and_reload NeverSettles stale_foo);
    reflexivity.
Defined.

Lemma fresh_value_served_without_load_witness :
  (get boundary_store (Some "foo") = Ok boundary_foo /\
   truthy boundary_foo = true /\
   num_gt (Fin 1000) (Fin 999) = true) /\
  exists r,
    run 999 boundary_store boundary_store (Some "foo") foo_url
        revalidate_and_reload (Fails (failure 500)) = Ok r /\
    loads (calls r) = 0%nat /\
    final r =
      Fulfilled (VObj [("duration", VNum (Fin 0));
                       ("headers", VObj [("status", VNum (Fin 200))]);
                       ("data", boundary_foo)]) /\
    at_return r = final r.
Proof.
  split; [repeat split; reflexivity |].
  apply (fresh_value_served_without_load 999 boundary_store boundary_store
           (Some "foo") foo_url revalidate_and_reload (Fails (failure 500))
           boundary_foo).
  - reflexivity.
  - reflexivity.
  - right. exists [("bar", VStr "boo"); ("__expires", VNum (Fin 1000))].
    exists (Fin 1000). repeat split; reflexivity.
Defined.

(** C6 as stated fails: [count] holds 0, a value that is present and has
    no expiry record, and [fetch] calls [load] and returns the promise that
    waits for it; with the load failing, the response is the one of the
    failure, not the stored value with status 200. *)
Lemma present_zero_is_loaded :
  get counter_store (Some "count") = Ok (VNum (Fin 0)) /\
  has_own (EXPIRES_KEY counter_store) (VNum (Fin 0)) = false /\
  run 1000 counter_store counter_store (Some "count") foo_url no_options
      (Fails (failure 500)) =
    Ok {| before_return := [Load (Some "count") foo_url no_options];
          at_return := Pending;
          after_settle := [];
          final :=
            Fulfilled
              (VObj [("duration", VNum (Fin 0));
                     ("error", failure 500);
                     ("headers", VObj [("status", VNum (Fin 500))]);
                     ("data", VNull)]) |}.
Proof. repeat split. Qed.

(** A value without an expiry record: [bar] of the fetchable store. *)
Example value_without_record_is_fresh :
  run 1000 fetchable_store fetchable_store (Some "bar") foo_url no_options
      NeverSettles =
    Ok {| before_return := [];
          at_return := Fulfilled (stored_response (VStr "bat"));
          after_settle := [];
          final := Fulfilled (stored_response (VStr "bat")) |}.
Proof. reflexivity. Qed.

(** C7 as stated fails: the value is stale, [options.reload] and
    [options.staleWhileRevalidate] are set and the load fails with status
    404; a reload is scheduled all the same, before [fetch] returns. *)
Lemma reload_scheduled_despite_client_error :
  hasExpired 1000 stale_foo (EXPIRES_KEY stale_store) = Ok true /\
  server_error (failure 404) = false /\
  run 1000 stale_store stale_store (Some "foo") foo_url
      revalidate_and_reload (Fails (failure 404)) =
    Ok {| before_return :=
            [Load (Some "foo") foo_url revalidate_and_reload;
             Reload (Some "foo") foo_url revalidate_and_reload];
          at_return := Fulfilled (stored_response stale_foo);
          after_settle := [];
          final := Fulfilled (stored_response stale_foo) |}.
Proof. repeat split; reflexivity. Qed.

Lemma reload_scheduled_iff_witness :
  (get stale_store (Some "foo") = Ok stale_foo /\
   hasExpired 1000 stale_foo (EXPIRES_KEY stale_store) = Ok true) /\
  exists r,
    run 1000 stale_store stale_store (Some "foo") foo_url
        revalidate_and_reload (Fails (failure 404)) = Ok r /\
    ((0 < reloads (calls r))%nat <->
     reload revalidate_and_reload = true /\
     (load_succeeded (negb (truthy stale_foo) || true)
        (Fails (failure 404)) = true \/
      load_failed_5xx (negb (truthy stale_foo) || true)
        (Fails (failure 404)) = true \/
      (truthy stale_foo = true /\ true = false) \/
      (truthy stale_foo = true /\ true = true /\
       staleWhileRevalidate revalidate_and_reload = true))).
Proof.
  split; [split; reflexivity |].
  apply (reload_scheduled_iff 1000 stale_store stale_store (Some "foo")
           foo_url revalidate_and_reload (Fails (failure 404)) stale_foo
           true); reflexivity.
Defined.

Lemma revalidation_schedules_reload_twice_witness :
  (get stale_store (Some "foo") = Ok stale_foo /\
   hasExpired 1000 stale_foo (EXPIRES_KEY stale_store) = Ok true /\
   staleWhileRevalidate revalidate_and_reload = true /\
   reload revalidate_and_reload = true /\
   server_error (failure 503) = true) /\
  exists r,
    run 1000 stale_store stale_store (Some "foo") foo_url
        revalidate_and_reload (Fails (failure 503)) = Ok r /\
    before_return r =
      [Load (Some "foo") foo_url revalidate_and_reload;
       Reload (Some "foo") foo_url revalidate_and_reload] /\
    (exists response, at_return r = Fulfilled response) /\
    after_settle r = [Reload (Some "foo") foo_url revalidate_and_reload] /\
    reloads (calls r) = 2%nat.
Proof.
  split; [repeat split; reflexivity |].
  apply (revalidation_schedules_reload_twice 1000 stale_store stale_store
           (Some "foo") foo_url revalidate_and_reload (Fails (failure 503))
           stale_foo); try reflexivity.
  right. exists (failure 503). split; reflexivity.
Defined.

(** The other way of settling: the load is fulfilled. *)
Example reload_twice_on_success :
  run 1000 stale_store stale_store (Some "foo") foo_url
      revalidate_and_reload
      (Succeeds {| duration := VNum (Fin 12); headers := VObj [] |}) =
    Ok {| before_return :=
            [Load (Some "foo") foo_url revalidate_and_reload;
             Reload (Some "foo") foo_url revalidate_and_reload];
          at_return := Fulfilled (stored_response stale_foo);
          after_settle := [Reload (Some "foo") foo_url revalidate_and_reload];
          final := Fulfilled (stored_response stale_foo) |}.
Proof. reflexivity. Qed.

Lemma failed_load_without_value_witness :
  (get fetchable_store (Some "beep") = Ok VUndefined /\
   js_prop (failure 500) "status" = Ok (VNum (Fin 500))) /\
  exists r,
    run 1000 fetchable_store fetchable_store (Some "beep")
        (Some "http://localhost/beep") stale_if_error (Fails (failure 500)) =
      Ok r /\
    (staleIfError stale_if_error = true ->
     final r =
       Fulfilled (VObj [("duration", VNum (Fin 0));
                        ("error", failure 500);
                        ("headers", VObj [("status", VNum (Fin 500))]);
                        ("data", VUndefined)])) /\
    (staleIfError stale_if_error = false ->
     final r =
       Fulfilled (VObj [("duration", VNum (Fin 0));
                        ("error", failure 500);
                        ("headers", VObj [("status", VNum (Fin 500))]);
                        ("data", VNull)])).
Proof.
  split; [split; reflexivity |].
  apply (failed_load_without_value 1000 fetchable_store fetchable_store
           (Some "beep") (Some "http://localhost/beep") stale_if_error
           (failure 500) (VNum (Fin 500))); reflexivity.
Defined.

(** The two responses side by side. *)
Example failed_load_data :
  (exists r,
     run 1000 fetchable_store fetchable_store (Some "beep")
         (Some "http://localhost/beep") stale_if_error
         (Fails (failure 500)) = Ok r /\
     final r =
       Fulfilled (VObj [("duration", VNum (Fin 0));
                        ("error", failure 500);
                        ("headers", VObj [("status", VNum (Fin 500))]);
                        ("data", VUndefined)])) /\
  (exists r,
     run 1000 fetchable_store fetchable_store (Some "beep")
         (Some "http://localhost/beep") no_options
         (Fails (failure 500)) = Ok r /\
     final r =
       Fulfilled (VObj [("duration", VNum (Fin 0));
                        ("error", failure 500);
                        ("headers", VObj [("status", VNum (Fin 500))]);
                        ("data", VNull)])).
Proof. split; eexists; split; reflexivity. Qed.

(** ** Further properties of remove.js and fetch.js *)

Section Coverage.
Context {engine : Engine} {modules : Modules}.

(** X3.  Under a parent that is a non-empty string, a number other than 0
    and [NaN], or [true], the [in] of line 19 throws a [TypeError]; [set]
    is not reached. *)
Theorem remove_scalar_parent_throws (store : Store) (key : string)
    (data : value) :
  parent store key = Ok data ->
  truthy data = true ->
  is_scalar data = true ->
  remove store key = Throw TypeError.
Proof.
  intros Hp Ht Hs. unfold remove. rewrite Hp. simpl. rewrite Ht.
  destruct data; simpl in Hs; try discriminate; reflexivity.
Qed.

Lemma hasExpired_inv (now : Z) (v : value) (k : string) :
  hasExpired now v k = Ok true ->
  exists fs x,
    v = VObj fs /\ lookup k fs = Some x /\
    num_gt (Fin now) (to_number x) = true.
Proof.
  unfold hasExpired.
  destruct v as [| | b | n | s | xs | fs | name ps];
    try (destruct (truthy _); discriminate).
  simpl. destruct (lookup k fs) as [x |] eqn:Hl; simpl.
  - intros [= H]. now exists fs, x.
  - destruct (inherited (VObj fs) k); simpl; discriminate.
Qed.

(** X4.  A value has expired exactly when it is a plain object with an own
    property under the expiry key whose number is strictly before the
    current time.  Arrays, strings and [Error] instances never expire, nor
    does an expiry of [undefined], [NaN] or [Infinity]. *)
Theorem hasExpired_iff (now : Z) (v : value) (k : string) :
  hasExpired now v k = Ok true <->
  exists fs x,
    v = VObj fs /\ lookup k fs = Some x /\
    num_gt (Fin now) (to_number x) = true.
Proof.
  split.
  - apply hasExpired_inv.
  - intros (fs & x & -> & Hl & Hgt).
    rewrite (hasExpired_record now fs k x Hl). now rewrite Hgt.
Qed.

Lemma num_gt_later (now now' : Z) (n : num) :
  num_gt (Fin now) n = true -> now <= now' -> num_gt (Fin now') n = true.
Proof.
  destruct n; simpl; trivial.
  intros H Hle. apply Z.ltb_lt in H. apply Z.ltb_lt. lia.
Qed.

(** X5.  A call that issues a load at one time does the same at every
    later time: the same calls, the same promise returned. *)
Theorem load_issued_later_too (now now' : Z) (store : Store)
    (key url : option string) (options : Options) (call : Call) :
  fetch now store key url options = Ok call ->
  loading call <> None ->
  now <= now' ->
  fetch now' store key url options = Ok call.
Proof.
  unfold fetch. destruct (get store key) as [val | e]; simpl; [| discriminate].
  destruct (truthy val) eqn:Hval; simpl; [| tauto].
  destruct (hasExpired now val (EXPIRES_KEY store)) as [[|] | e] eqn:Hexp;
    simpl; try discriminate.
  - intros Hcall _ Hle.
    apply hasExpired_inv in Hexp. destruct Hexp as (fs & x & -> & Hl & Hgt).
    rewrite (hasExpired_record now' fs _ x Hl).
    rewrite (num_gt_later _ _ _ Hgt Hle). exact Hcall.
  - intros [= <-] Hno. now elim Hno.
Qed.

(** X6.  A stored value that is falsy (0, the empty string, [false],
    [null]) is treated as a missing one: the load is issued and the promise
    waits for it, [options.staleWhileRevalidate] or not. *)
Theorem falsy_value_is_loaded (now : Z) (store store' : Store)
    (key url : option string) (options : Options) (o : outcome)
    (val : value) :
  get store key = Ok val ->
  truthy val = false ->
  exists r,
    run now store store' key url options o = Ok r /\
    before_return r = [Load key url options] /\
    at_return r = Pending.
Proof.
  intros Hget Hval.
  rewrite (run_waits _ _ _ _ _ _ _ _ Hget (or_introl Hval))
    by now rewrite Hval.
  eexists. repeat split.
Qed.

(** X7.  A load that the promise waits for and that is fulfilled: the
    response carries the duration and the headers of the load, and as
    [data] the value read from the store at that time, not the one read
    before the load; one reload is scheduled when [options.reload] is set,
    none otherwise. *)
Theorem successful_load_response (now : Z) (store store' : Store)
    (key url : option string) (options : Options) (res : LoadResponse)
    (val data : value) :
  get store key = Ok val ->
  truthy val = false \/ hasExpired now val (EXPIRES_KEY store) = Ok true ->
  truthy val && staleWhileRevalidate options = false ->
  get store' key = Ok data ->
  exists r,
    run now store store' key url options (Succeeds res) = Ok r /\
    final r =
      Fulfilled (VObj [("duration", duration res);
                       ("headers", headers res);
                       ("data", data)]) /\
    after_settle r =
      if reload options then [Reload key url options] else [].
Proof.
  intros Hget Hstale Hwait Hget'.
  rewrite (run_waits _ _ _ _ _ _ _ _ Hget Hstale Hwait).
  eexists. split; [reflexivity |].
  cbn [final after_settle settle]. unfold on_loaded. rewrite Hget'.
  split; reflexivity.
Qed.

(** X10.  An exception of the callback on the fulfilled load (the lookup of
    the key throws) is handled as a failure of the load: the promise is
    resolved with the exception as [error], its [status] in the headers and
    the fallback [data]. *)
Theorem exception_after_load_is_reported (now : Z) (store store' : Store)
    (key url : option string) (options : Options) (res : LoadResponse)
    (val e status : value) :
  get store key = Ok val ->
  truthy val = false \/ hasExpired now val (EXPIRES_KEY store) = Ok true ->
  truthy val && staleWhileRevalidate options = false ->
  get store' key = Throw e ->
  js_prop e "status" = Ok status ->
  exists r,
    run now store store' key url options (Succeeds res) = Ok r /\
    final r =
      Fulfilled (VObj [("duration", VNum (Fin 0));
                       ("error", e);
                       ("headers", VObj [("status", status)]);
                       ("data",
                        if staleIfError options then val else VNull)]).
Proof.
  intros Hget Hstale Hwait Hget' Hstatus.
  rewrite (run_waits _ _ _ _ _ _ _ _ Hget Hstale Hwait).
  eexists. split; [reflexivity |].
  cbn [final settle]. unfold on_loaded. rewrite Hget'. simpl.
  now rewrite (on_failed_status _ _ _ _ _ _ Hstatus).
Qed.

(** X11.  A load rejected with [undefined] or [null]: reading [err.status]
    throws inside the callback of lines 45-54, nothing is scheduled and the
    promise that waits for the load stays pending. *)
Theorem rejection_without_reason_never_settles (now : Z)
    (store store' : Store) (key url : option string) (options : Options)
    (val err : value) :
  get store key = Ok val ->
  truthy val = false \/ hasExpired now val (EXPIRES_KEY store) = Ok true ->
  truthy val && staleWhileRevalidate options = false ->
  err = VUndefined \/ err = VNull ->
  exists r,
    run now store store' key url options (Fails err) = Ok r /\
    after_settle r = [] /\
    final r = Pending.
Proof.
  intros Hget Hstale Hwait Herr.
  rewrite (run_waits _ _ _ _ _ _ _ _ Hget Hstale Hwait).
  eexists. split; [reflexivity |].
  destruct Herr as [-> | ->]; split; reflexivity.
Qed.

(** X12.  A call issues one load when the value is missing or has expired
    and none otherwise; the callbacks on the load never issue another. *)
Theorem one_load_at_most (now : Z) (store store' : Store)
    (key url : option string) (options : Options) (o : outcome)
    (val : value) (expired : bool) :
  get store key = Ok val ->
  hasExpired now val (EXPIRES_KEY store) = Ok expired ->
  exists r,
    run now store store' key url options o = Ok r /\
    loads (calls r) =
      if negb (truthy val) || expired then 1%nat else 0%nat.
Proof.
  intros Hget Hexp.
  pose proof (settle_loads store' key url options val o) as Hs.
  unfold loads in Hs.
  destruct (truthy val) eqn:Hval; simpl.
  - destruct expired.
    + destruct (staleWhileRevalidate options) eqn:Hswr.
      * rewrite (run_revalidates _ _ _ _ _ _ _ _ Hget Hexp Hswr).
        eexists. split; [reflexivity |]. unfold calls, loads. simpl.
        rewrite filter_app, length_app, Hs.
        now destruct (reload options).
      * rewrite (run_waits _ _ _ _ _ _ _ _ Hget (or_intror Hexp))
          by now rewrite Hval, Hswr.
        eexists. split; [reflexivity |]. unfold calls, loads. simpl.
        now rewrite Hs.
    + rewrite (run_fresh _ _ _ _ _ _ _ _ Hget Hval Hexp).
      eexists. split; [reflexivity |]. unfold calls, loads. simpl.
      now destruct (reload options).
  - rewrite (run_waits _ _ _ _ _ _ _ _ Hget (or_introl Hval))
      by now rewrite Hval.
    eexists. split; [reflexivity |]. unfold calls, loads. simpl.
    now rewrite Hs.
Qed.

(** X13.  Of [url] and [options], a call depends on [options.reload],
    [options.staleWhileRevalidate] and [options.staleIfError] alone: with
    another url and other options that agree on these three, the promise is
    the same when [fetch] returns and in the end, and the same calls are
    made in the same order, up to the url and options passed along. *)
Theorem policy_alone_decides (now : Z) (store store' : Store)
    (key url url' : option string) (options options' : Options)
    (o : outcome) (r : Run) :
  same_policy options options' ->
  run now store store' key url options o = Ok r ->
  exists r',
    run now store store' key url' options' o = Ok r' /\
    at_return r' = at_return r /\
    final r' = final r /\
    kinds (calls r') = kinds (calls r).
Proof.
  intros (Hr & Hs & He). unfold run, fetch.
  destruct (get store key) as [val | e]; simpl; [| discriminate].
  rewrite <- Hr, <- Hs.
  assert (Hsettle : forall v,
    snd (settle store' key url' options' v o)
      = snd (settle store' key url options v o) /\
    kinds (fst (settle store' key url' options' v o))
      = kinds (fst (settle store' key url options v o))).
  { intros v. unfold settle, on_loaded, on_failed.
    rewrite <- Hr, <- He.
    destruct o as [res | err |]; [| | split; reflexivity].
    - destruct (get store' key) as [data | e]; simpl.
      + split; [reflexivity |]. now destruct (reload options).
      + destruct (js_prop e "status") as [status | e']; simpl.
        * destruct (num_ge (to_number status) (Fin 500)),
            (reload options); split; reflexivity.
        * destruct (reload options); split; reflexivity.
    - destruct (js_prop err "status") as [status | e']; simpl.
      + destruct (num_ge (to_number status) (Fin 500)),
          (reload options); split; reflexivity.
      + split; reflexivity. }
  destruct (if negb (truthy val) then Ok true
            else hasExpired now val (EXPIRES_KEY store))
    as [[|] | e]; simpl; [| | discriminate].
  - destruct (negb (truthy val && staleWhileRevalidate options)); simpl;
      destruct (Hsettle val) as [Hp Hk];
      destruct (settle store' key url options val o) as [es p];
      destruct (settle store' key url' options' val o) as [es' p'];
      simpl in *; intros [= <-]; eexists; split; try reflexivity;
      cbn [at_return final calls before_return after_settle kinds];
      repeat split; trivial.
    + unfold kinds, calls in *. simpl. now rewrite Hk.
    + unfold kinds, calls in *. cbn [before_return after_settle].
      rewrite !map_app, Hk. now destruct (reload options).
  - intros [= <-]. eexists. split; [reflexivity |].
    cbn [at_return final calls before_return after_settle kinds].
    repeat split. now destruct (reload options).
Qed.

End Coverage.

(** ** The further properties on the stores of the tests *)

Lemma remove_single_segment_witness :
  (keys_length "bar" = 1%nat /\
   js_in "bar" (_data fetchable_store) = Ok true) /\
  remove fetchable_store "bar" =
    set fetchable_store (Some "bar") VUndefined.
Proof.
  split; [split; reflexivity |].
  apply (remove_single_segment fetchable_store "bar"); reflexivity.
Defined.

Lemma remove_nested_witness :
  (keys_length "foo/bar" <> 1%nat /\
   get fetchable_store (Some (keys_slice "foo/bar" 0 (-1))) =
     Ok (VObj [("bar", VStr "boo"); ("boo", VObj [("bar", VStr "foo")])]) /\
   keys_last "foo/bar" = Some "bar") /\
  remove fetchable_store "foo/bar" =
    set fetchable_store (keys_last "foo/bar") VUndefined.
Proof.
  split; [split; [discriminate | split; reflexivity] |].
  apply (remove_nested fetchable_store "foo/bar"
           (VObj [("bar", VStr "boo"); ("boo", VObj [("bar", VStr "foo")])]));
    try reflexivity.
  discriminate.
Defined.

Lemma remove_scalar_parent_throws_witness :
  parent fetchable_store "bar/zing" = Ok (VStr "bat") /\
  remove fetchable_store "bar/zing" = Throw TypeError.
Proof.
  split; [reflexivity |].
  apply (remove_scalar_parent_throws fetchable_store "bar/zing" (VStr "bat"));
    reflexivity.
Defined.

Lemma load_issued_later_too_witness :
  fetch 1000 stale_store (Some "foo") foo_url no_options =
    Ok {| effects := [Load (Some "foo") foo_url no_options];
          returns := PromiseToLoad;
          loading := Some stale_foo |} /\
  fetch 2000 stale_store (Some "foo") foo_url no_options =
    Ok {| effects := [Load (Some "foo") foo_url no_options];
          returns := PromiseToLoad;
          loading := Some stale_foo |}.
Proof.
  split; [reflexivity |].
  apply (load_issued_later_too 1000 2000 stale_store (Some "foo") foo_url
           no_options).
  - reflexivity.
  - discriminate.
  - lia.
Defined.

Lemma falsy_value_is_loaded_witness :
  (get counter_store (Some "count") = Ok (VNum (Fin 0)) /\
   truthy (VNum (Fin 0)) = false) /\
  exists r,
    run 1000 counter_store counter_store (Some "count") foo_url
        revalidate_and_reload NeverSettles = Ok r /\
    before_return r = [Load (Some "count") foo_url revalidate_and_reload] /\
    at_return r = Pending.
Proof.
  split; [split; reflexivity |].
  apply (falsy_value_is_loaded 1000 counter_store counter_store
           (Some "count") foo_url revalidate_and_reload NeverSettles
           (VNum (Fin 0))); reflexivity.
Defined.

Lemma successful_load_response_witness :
  (get stale_store (Some "foo") = Ok stale_foo /\
   hasExpired 1000 stale_foo (EXPIRES_KEY stale_store) = Ok true /\
   get reloaded_store (Some "foo") =
     Ok (VObj [("foo", VStr "foo"); ("__expires", VNum (Fin 11000))])) /\
  exists r,
    run 1000 stale_store reloaded_store (Some "foo") foo_url no_options
        (Succeeds loaded) = Ok r /\
    final r =
      Fulfilled
        (VObj [("duration", duration loaded);
               ("headers", headers loaded);
               ("data", VObj [("foo", VStr "foo");
                              ("__expires", VNum (Fin 11000))])]) /\
    after_settle r =
      if reload no_options
      then [Reload (Some "foo") foo_url no_options] else [].
Proof.
  split; [repeat split; reflexivity |].
  apply (successful_load_response 1000 stale_store reloaded_store
           (Some "foo") foo_url no_options loaded stale_foo).
  - reflexivity.
  - right. reflexivity.
  - reflexivity.
  - reflexivity.
Defined.

Lemma failed_load_response_witness :
  (get stale_store (Some "foo") = Ok stale_foo /\
   hasExpired 1000 stale_foo (EXPIRES_KEY stale_store) = Ok true /\
   js_prop (failure 500) "status" = Ok (VNum (Fin 500))) /\
  exists r,
    run 1000 stale_store stale_store (Some "foo") foo_url stale_if_error
        (Fails (failure 500)) = Ok r /\
    final r =
      Fulfilled (VObj [("duration", VNum (Fin 0));
                       ("error", failure 500);
                       ("headers", VObj [("status", VNum (Fin 500))]);
                       ("data",
                        if staleIfError stale_if_error
                        then stale_foo else VNull)]).
Proof.
  split; [repeat split; reflexivity |].
  apply (failed_load_response 1000 stale_store stale_store (Some "foo")
           foo_url stale_if_error stale_foo (failure 500) (VNum (Fin 500))).
  - reflexivity.
  - right. reflexivity.
  - reflexivity.
  - reflexivity.
Defined.

Lemma run_never_rejects_witness :
  run 1000 fetchable_store fetchable_store (Some "beep")
      (Some "http://localhost/beep") reject_on_error (Fails (failure 500)) =
    Ok {| before_return :=
            [Load (Some "beep") (Some "http://localhost/beep")
                  reject_on_error];
          at_return := Pending;
          after_settle := [];
          final :=
            Fulfilled
              (VObj [("duration", VNum (Fin 0));
                     ("error", failure 500);
                     ("headers", VObj [("status", VNum (Fin 500))]);
                     ("data", VNull)]) |} /\
  Fulfilled
    (VObj [("duration", VNum (Fin 0));
           ("error", failure 500);
           ("headers", VObj [("status", VNum (Fin 500))]);
           ("data", VNull)]) <> Rejected (failure 500).
Proof.
  split; [reflexivity |].
  apply (run_never_rejects 1000 fetchable_store fetchable_store (Some "beep")
           (Some "http://localhost/beep") reject_on_error
           (Fails (failure 500))
           {| before_return :=
                [Load (Some "beep") (Some "http://localhost/beep")
                      reject_on_error];
              at_return := Pending;
              after_settle := [];
              final :=
                Fulfilled
                  (VObj [("duration", VNum (Fin 0));
                         ("error", failure 500);
                         ("headers", VObj [("status", VNum (Fin 500))]);
                         ("data", VNull)]) |}
           (failure 500)).
  reflexivity.
Defined.

Lemma exception_after_load_is_reported_witness :
  (get empty_store (Some "foo") = Ok VUndefined /\
   get cyclic_store (Some "foo") = Throw SpecStore.CyclicReferenceError /\
   js_prop SpecStore.CyclicReferenceError "status" = Ok VUndefined) /\
  exists r,
    run 1000 empty_store cyclic_store (Some "foo") foo_url no_options
        (Succeeds loaded) = Ok r /\
    final r =
      Fulfilled (VObj [("duration", VNum (Fin 0));
                       ("error", SpecStore.CyclicReferenceError);
                       ("headers", VObj [("status", VUndefined)]);
                       ("data",
                        if staleIfError no_options
                        then VUndefined else VNull)]).
Proof.
  split; [repeat split; reflexivity |].
  apply (exception_after_load_is_reported 1000 empty_store cyclic_store
           (Some "foo") foo_url no_options loaded VUndefined
           SpecStore.CyclicReferenceError VUndefined).
  - reflexivity.
  - left. reflexivity.
  - reflexivity.
  - reflexivity.
  - reflexivity.
Defined.

Lemma rejection_without_reason_never_settles_witness :
  get empty_store (Some "foo") = Ok VUndefined /\
  exists r,
    run 1000 empty_store empty_store (Some "foo") foo_url no_options
        (Fails VUndefined) = Ok r /\
    after_settle r = [] /\
    final r = Pending.
Proof.
  split; [reflexivity |].
  apply (rejection_without_reason_never_settles 1000 empty_store empty_store
           (Some "foo") foo_url no_options VUndefined VUndefined).
  - reflexivity.
  - left. reflexivity.
  - reflexivity.
  - left. reflexivity.
Defined.

Lemma one_load_at_most_witness :
  (get stale_store (Some "foo") = Ok stale_foo /\
   hasExpired 1000 stale_foo (EXPIRES_KEY stale_store) = Ok true) /\
  exists r,
    run 1000 stale_store reloaded_store (Some "foo") foo_url
        revalidate_and_reload (Succeeds loaded) = Ok r /\
    loads (calls r) =
      if negb (truthy stale_foo) || true then 1%nat else 0%nat.
Proof.
  split; [split; reflexivity |].
  apply (one_load_at_most 1000 stale_store reloaded_store (Some "foo")
           foo_url revalidate_and_reload (Succeeds loaded) stale_foo true);
    reflexivity.
Defined.

Lemma policy_alone_decides_witness :
  same_policy no_options reject_on_error /\
  exists r',
    run 1000 stale_store stale_store (Some "foo") None reject_on_error
        (Fails (failure 500)) = Ok r' /\
    at_return r' = Pending /\
    final r' =
      Fulfilled (VObj [("duration", VNum (Fin 0));
                       ("error", failure 500);
                       ("headers", VObj [("status", VNum (Fin 500))]);
                       ("data", VNull)]) /\
    kinds (calls r') = [true].
Proof.
  split; [repeat split |].
  apply (policy_alone_decides 1000 stale_store stale_store (Some "foo")
           foo_url None no_options reject_on_error (Fails (failure 500))
           {| before_return := [Load (Some "foo") foo_url no_options];
              at_return := Pending;
              after_settle := [];
              final :=
                Fulfilled
                  (VObj [("duration", VNum (Fin 0));
                         ("error", failure 500);
                         ("headers", VObj [("status", VNum (Fin 500))]);
                         ("data", VNull)]) |}).
  - repeat split.
  - reflexivity.
Defined.
